(** * custom-load-balancer: weighted selection and request forwarding

    A shallow embedding of [load_balancer.go]: [getPodIPs],
    [weightedChoice] and the HTTP handler [loadBalance].

    - Go's [float64] is Rocq's primitive binary64 [float]; [+], [*] and
      the comparisons are the IEEE 754 operations, NaN and signed zeros
      included.
    - A run-time panic (slice index out of range) is an explicit outcome.
    - The handler runs in a small state-and-panic monad over the exchange
      it performs: the outbound GET requests it issued and what it wrote
      to the [http.ResponseWriter].
    - The outside world is an input: the environment, the value returned
      by [rand.Float64] and what the network answers to a GET. *)

From Stdlib Require Import Floats String Ascii List ZArith Lia Bool PeanoNat.
Import ListNotations.

Set Warnings "-inexact-float".

Local Open Scope list_scope.
Local Open Scope float_scope.

(** ** Go run time: results and panics *)

Inductive Fault : Type :=
| IndexOutOfRange.   (* panic: runtime error: index out of range *)

Inductive Outcome (A : Type) : Type :=
| Done (a : A)
| Panicked (f : Fault).

Arguments Done {A} a.
Arguments Panicked {A} f.

(** [x >= y] on float64: false as soon as one side is NaN. *)
Definition geb (x y : float) : bool := (y <=? x).

(** ** Backend discovery *)

Module Env.

(** The process environment, as far as the program reads it: the value
    of a variable, if it is set. *)
Definition t := string -> option string.

(** [os.Getenv]: the empty string when the variable is not set. *)
Definition Getenv (env : t) (key : string) : string :=
  match env key with
  | Some v => v
  | None => EmptyString
  end.

End Env.

Module Strings.

(** [strings.Split s sep] for a one-byte separator: the fields between
    the occurrences of [sep]; one field more than there are
    separators. *)
Fixpoint Split (s : string) (sep : ascii) : list string :=
  match s with
  | EmptyString => [EmptyString]
  | String c s' =>
      if Ascii.eqb c sep then EmptyString :: Split s' sep
      else match Split s' sep with
           | field :: fields => String c field :: fields
           | [] => [String c EmptyString]
           end
  end.

End Strings.

Definition comma : ascii := ","%char.

(** <<
func getPodIPs() []string {
	podIPsEnv := os.Getenv("POD_IPS")
	return strings.Split(podIPsEnv, ",")
}
>> *)
Definition getPodIPs (env : Env.t) : list string :=
  let podIPsEnv := Env.Getenv env "POD_IPS"%string in
  Strings.Split podIPsEnv comma.

(** ** Weighted selection *)

(** First loop of [weightedChoice]: [total := 0.0; total += weight]. *)
Definition total_weight (weights : list float) : float :=
  fold_left PrimFloat.add weights 0.

(** [r := rand.Float64() * total], with [u] the value the generator
    returned. *)
Definition draw (u : float) (weights : list float) : float :=
  u * total_weight weights.

(** Second loop: [for i, choice := range choices], from index [i] with
    the running sum [upto], over the remaining [rest] of [choices].
    [weights[i]] panics when [i] is not an index of [weights].
    [Done None] is the loop running off the end of [choices]. *)
Fixpoint scan (weights : list float) (r : float) (i : nat) (upto : float)
    (rest : list string) : Outcome (option string) :=
  match rest with
  | [] => Done None
  | choice :: rest' =>
      match nth_error weights i with
      | None => Panicked IndexOutOfRange
      | Some w =>
          if geb (upto + w) r then Done (Some choice)
          else scan weights r (S i) (upto + w) rest'
      end
  end.

(** [choices[len(choices)-1]]: panics on the empty slice. *)
Definition last_choice (choices : list string) : Outcome string :=
  match choices with
  | [] => Panicked IndexOutOfRange
  | c :: cs => Done (last cs c)
  end.

(** The walk and the fallback, for a given draw [r]. *)
Definition choose (r : float) (choices : list string) (weights : list float)
    : Outcome string :=
  match scan weights r 0 0 choices with
  | Panicked f => Panicked f
  | Done (Some choice) => Done choice
  | Done None => last_choice choices
  end.

(** <<
func weightedChoice(choices []string, weights []float64) string {
	total := 0.0
	for _, weight := range weights { total += weight }
	r := rand.Float64() * total
	upto := 0.0
	for i, choice := range choices {
		if upto+weights[i] >= r { return choice }
		upto += weights[i]
	}
	return choices[len(choices)-1]
}
>> *)
Definition weightedChoice (u : float) (choices : list string)
    (weights : list float) : Outcome string :=
  let r := draw u weights in
  choose r choices weights.

(** ** The exchange of one inbound request *)

(** What the network answers to [http.Get url]. *)
Record HttpResponse : Type := {
  StatusCode : Z;
  BodyData : string;      (* the bytes the body delivers *)
  BodyFails : bool        (* the read ends in an error instead of EOF *)
}.

Inductive GetResult : Type :=
| GetErr                          (* err != nil: no connection, bad URL *)
| GetOk (resp : HttpResponse).

Definition Network := string -> GetResult.

(** [io.ReadAll]: the data, or the error of the failed read. *)
Definition ReadAll (resp : HttpResponse) : option string :=
  if BodyFails resp then None else Some (BodyData resp).

(** The inbound request. The handler never looks at it. *)
Record Request : Type := {
  Method : string;
  Path : string
}.

(** What one run of the handler did: the outbound GETs in the order they
    were issued, the status line sent to the caller, if any, and the body
    bytes written so far. *)
Record Exchange : Type := {
  outbound : list string;
  status : option Z;
  written : string
}.

Definition fresh : Exchange :=
  {| outbound := []; status := None; written := EmptyString |}.

Definition Handler (A : Type) : Type := Exchange -> Outcome A * Exchange.

Definition ret {A} (a : A) : Handler A := fun x => (Done a, x).

Definition bind {A B} (m : Handler A) (k : A -> Handler B) : Handler B :=
  fun x =>
    match m x with
    | (Done a, x') => k a x'
    | (Panicked f, x') => (Panicked f, x')
    end.

Notation "v <- m ;; k" := (bind m (fun v => k))
  (at level 61, m at next level, right associativity).
Notation "m ;;; k" := (bind m (fun _ => k))
  (at level 61, right associativity).

(** A pure Go call that may panic. *)
Definition call {A} (o : Outcome A) : Handler A := fun x => (o, x).

Module Http.

Definition StatusOK : Z := 200.
Definition StatusInternalServerError : Z := 500.

(** [http.Get]: one outbound request. *)
Definition Get (net : Network) (url : string) : Handler GetResult :=
  fun x =>
    (Done (net url),
     {| outbound := outbound x ++ [url];
        status := status x;
        written := written x |}).

(** [w.WriteHeader]: the first call fixes the status. *)
Definition WriteHeader (code : Z) : Handler unit :=
  fun x =>
    (Done tt,
     {| outbound := outbound x;
        status := match status x with Some c => Some c | None => Some code end;
        written := written x |}).

(** [w.Write]: sends the status 200 first if none was sent. *)
Definition Write (data : string) : Handler unit :=
  WriteHeader StatusOK ;;;
  fun x =>
    (Done tt,
     {| outbound := outbound x;
        status := status x;
        written := (written x ++ data)%string |}).

Definition newline : string := String (ascii_of_nat 10) EmptyString.

(** [http.Error]: the status, then the message and a newline. *)
Definition Error (msg : string) (code : Z) : Handler unit :=
  WriteHeader code ;;;
  Write (msg ++ newline)%string.

End Http.

(** The weights of [loadBalance]. *)
Definition weights : list float := [0.5; 0.3; 0.2].

(** [fmt.Sprintf("http://%s", selectedPod)] *)
Definition url_of (selectedPod : string) : string :=
  ("http://" ++ selectedPod)%string.

(** [loadBalance] from [http.Get] on. *)
Definition forward (net : Network) (selectedPod : string) : Handler unit :=
  got <- Http.Get net (url_of selectedPod) ;;
  match got with
  | GetErr => Http.Error "Failed to reach pod" Http.StatusInternalServerError
  | GetOk resp =>
      match ReadAll resp with
      | None => Http.Error "Failed to read response" Http.StatusInternalServerError
      | Some body => Http.Write body
      end
  end.

(** <<
func loadBalance(w http.ResponseWriter, r *http.Request) {
	podIPs := getPodIPs()
	weights := []float64{0.5, 0.3, 0.2}
	selectedPod := weightedChoice(podIPs, weights)
	resp, err := http.Get(fmt.Sprintf("http://%s", selectedPod))
	if err != nil {
		http.Error(w, "Failed to reach pod", http.StatusInternalServerError)
		return
	}
	defer resp.Body.Close()
	body, err := io.ReadAll(resp.Body)
	if err != nil {
		http.Error(w, "Failed to read response", http.StatusInternalServerError)
		return
	}
	w.Write(body)
}
>> *)
Definition loadBalance (env : Env.t) (u : float) (net : Network)
    (r : Request) : Handler unit :=
  let podIPs := getPodIPs env in
  selectedPod <- call (weightedChoice u podIPs weights) ;;
  forward net selectedPod.

(** One inbound request, served on a fresh exchange. *)
Definition serve (env : Env.t) (u : float) (net : Network) (r : Request)
    : Outcome unit * Exchange :=
  loadBalance env u net r fresh.

(** What the caller receives: the status line and the body. *)
Definition reply (x : Exchange) : option Z * string := (status x, written x).

(** ** Vocabulary of the statements *)

(** A weight that is zero, of either sign. *)
Definition is_zero (w : float) : bool := (w =? 0).

(** The running sum [upto] on entry to iteration [k] of the walk: the
    first [k] weights added in stored order, starting from [0.0]. *)
Definition upto_at (weights : list float) (k : nat) : float :=
  fold_left PrimFloat.add (firstn k weights) 0.

(** The test of iteration [k]: [upto + weights[k] >= r]. *)
Definition hit (weights : list float) (r : float) (k : nat) : bool :=
  geb (upto_at weights k + nth k weights 0) r.

(** The handler answered with [code] and [body] after the outbound GETs
    [urls]. *)
Definition answered (urls : list string) (code : Z) (body : string)
    : Outcome unit * Exchange :=
  (Done tt, {| outbound := urls; status := Some code; written := body |}).

(** The index the walk settles on among [n] addresses, for a draw [r]:
    the first whose test succeeds, the last one when none does. *)
Definition pick (weights : list float) (r : float) (n : nat) : nat :=
  match find (hit weights r) (seq 0 n) with
  | Some k => k
  | None => n - 1
  end.

(** The share of the handler's weights that the generator's value [u]
    falls in: the running sums are [0.5], [0.5 + 0.3] and [1.0]. *)
Definition bucket (u : float) : nat :=
  if geb 0.5 u then 0%nat
  else if geb (0.5 + 0.3) u then 1%nat
  else 2%nat.

(** [strings.Join fields sep] for a one-byte separator. *)
Fixpoint Join (fields : list string) (sep : ascii) : string :=
  match fields with
  | [] => EmptyString
  | [field] => field
  | field :: rest => (field ++ String sep (Join rest sep))%string
  end.

(** [strings.Count s sep] for a one-byte separator. *)
Fixpoint Count (s : string) (sep : ascii) : nat :=
  match s with
  | EmptyString => 0%nat
  | String c s' => ((if Ascii.eqb c sep then 1 else 0) + Count s' sep)%nat
  end.

(** ** The backend application ([web-app/main.go]) *)

Module WebApp.

(** <<
func handler(w http.ResponseWriter, r *http.Request) {
	hostname, err := os.Hostname()
	if err != nil {
		http.Error(w, "Could not get hostname", http.StatusInternalServerError)
		return
	}
	fmt.Fprintf(w, "Hello from %s!", hostname)
}
>>
    [hostname] is what [os.Hostname] returned, [None] for an error. *)
Definition handler (hostname : option string) (r : Request) : Handler unit :=
  match hostname with
  | None =>
      Http.Error "Could not get hostname" Http.StatusInternalServerError
  | Some name => Http.Write ("Hello from " ++ name ++ "!")%string
  end.

End WebApp.

(** The request of [http.Get] on a URL without a path. *)
Definition get_root : Request := {| Method := "GET"; Path := "/" |}.

(** What an HTTP client reads of a finished handler run; a handler that
    wrote nothing has answered 200. *)
Definition as_response (x : Exchange) : HttpResponse :=
  {| StatusCode := match status x with Some c => c | None => Http.StatusOK end;
     BodyData := written x;
     BodyFails := false |}.

(** A network of web-app pods: [pods url] is what [os.Hostname] returns
    in the pod that listens at [url], if one does. *)
Definition cluster (pods : string -> option (option string)) : Network :=
  fun url =>
    match pods url with
    | None => GetErr
    | Some hostname =>
        GetOk (as_response (snd (WebApp.handler hostname get_root fresh)))
    end.

(** ** Sample inputs *)

Module Sample.

Definition env_of (v : option string) : Env.t :=
  fun key => if String.eqb key "POD_IPS" then v else None.

Definition unset : Env.t := env_of None.
Definition three : Env.t := env_of (Some "10.0.0.1,10.0.0.2,10.0.0.3"%string).
Definition four : Env.t :=
  env_of (Some "10.0.0.1,10.0.0.2,10.0.0.3,10.0.0.4"%string).

Definition req : Request := {| Method := "POST"; Path := "/orders" |}.

Definition refusing : Network := fun _ => GetErr.

Definition healthy : Network :=
  fun _ => GetOk {| StatusCode := 200; BodyData := "OK"; BodyFails := false |}.

Definition cut_off : Network :=
  fun _ => GetOk {| StatusCode := 200; BodyData := "O"; BodyFails := true |}.

End Sample.

Local Close Scope float_scope.

(** ** binary64 facts

    What the proofs need of the IEEE 754 operations, from their
    specification on [spec_float]. *)

Module F64.

Local Open Scope float_scope.

Lemma compare_antisym (x y : spec_float) :
  SFcompare y x = option_map CompOpp (SFcompare x y).
Proof.
  destruct x as [[]|[]| |[] mx ex], y as [[]|[]| |[] my ey]; simpl;
    try reflexivity;
    rewrite (Z.compare_antisym ey ex);
    destruct (ey ?= ex)%Z; simpl; try reflexivity;
    rewrite (Pos.compare_cont_antisym mx my Eq); simpl;
    try rewrite CompOpp_involutive; reflexivity.
Qed.

(** [x < y] gives [y >= x]. *)
Lemma ltb_geb (x y : float) : (x <? y) = true -> geb y x = true.
Proof.
  unfold geb. rewrite FloatAxioms.ltb_spec, FloatAxioms.leb_spec.
  unfold SFltb, SFleb.
  destruct (SFcompare _ _) as [[]|]; congruence.
Qed.

(** [x < y] excludes [x >= y]. *)
Lemma ltb_not_geb (x y : float) : (x <? y) = true -> geb x y = false.
Proof.
  unfold geb. rewrite FloatAxioms.ltb_spec, FloatAxioms.leb_spec.
  unfold SFltb, SFleb.
  rewrite (compare_antisym (Prim2SF x) (Prim2SF y)).
  destruct (SFcompare (Prim2SF x) (Prim2SF y)) as [[]|]; simpl; congruence.
Qed.

Lemma is_zero_spec (w : float) :
  is_zero w = true -> exists s, Prim2SF w = S754_zero s.
Proof.
  unfold is_zero. rewrite FloatAxioms.eqb_spec. unfold SFeqb.
  change (Prim2SF 0) with (S754_zero false).
  destruct (Prim2SF w) as [s|[]| |[] m e]; simpl; try discriminate;
    intros _; now exists s.
Qed.

(** Adding a zero does not move a sum across a threshold. *)
Lemma geb_add_zero (x w r : float) :
  is_zero w = true -> geb (x + w) r = geb x r.
Proof.
  intros Hw. destruct (is_zero_spec w Hw) as [s Hs].
  unfold geb. rewrite !FloatAxioms.leb_spec, FloatAxioms.add_spec, Hs.
  unfold SFleb, SF64add.
  destruct (Prim2SF x) as [[]|[]| |[] m e], s,
           (Prim2SF r) as [[]|[]| |[] mr er];
    reflexivity.
Qed.

(** Rounding a mantissa that was shifted left by 52 bits gives the
    mantissa back: the 52 bits shifted out are zeros. *)
Lemma round_shifted (s : bool) (m : positive) (e : Z) :
  bounded prec emax m e = true ->
  binary_round_aux prec emax s (Zpos (4503599627370496 * m)) (e + -52)
    loc_Exact
  = S754_finite s m e.
Proof.
  unfold bounded, canonical_mantissa. intros Hb.
  apply andb_prop in Hb. destruct Hb as [Hc He].
  apply Z.eqb_eq in Hc.
  unfold binary_round_aux, shr_fexp.
  cbn [Pos.mul Zdigits2 digits2_pos shr_record_of_loc].
  match goal with
  | |- context [Z.add (Zpos ?p) (Z.add e (Zneg 52))] =>
      replace (Z.add (Zpos p) (Z.add e (Zneg 52)))
        with (Zpos (digits2_pos m) + e)%Z
        by (rewrite !Pos2Z.inj_succ; lia)
  end.
  rewrite Hc.
  replace (e - (e + -52))%Z with 52%Z by lia.
  cbn [shr SpecFloat.iter_pos shr_1 orb shr_m loc_of_shr_record
       round_nearest_even Zdigits2].
  replace (e + -52 + 52)%Z with e by lia.
  rewrite Hc, Z.sub_diag.
  cbn [shr shr_m]. rewrite He. reflexivity.
Qed.

Lemma SFmul_one (x : spec_float) :
  valid_binary x = true -> SF64mul x (Prim2SF 1) = x.
Proof.
  change (Prim2SF 1) with (S754_finite false 4503599627370496 (-52)).
  destruct x as [s|s| |s m e]; simpl; intros Hv.
  - now rewrite xorb_false_r.
  - now rewrite xorb_false_r.
  - reflexivity.
  - rewrite xorb_false_r, Pos.mul_comm. now apply round_shifted.
Qed.

(** Multiplying by [1.0] is exact, whatever the float. *)
Lemma mul_one (u : float) : u * 1 = u.
Proof.
  apply Prim2SF_inj. rewrite FloatAxioms.mul_spec.
  apply SFmul_one, Prim2SF_valid.
Qed.

End F64.

(** ** The walk *)

Section Walk.

Variable weights : list float.
Variable r : float.

Lemma upto_at_0 : upto_at weights 0 = 0%float.
Proof. reflexivity. Qed.

Lemma upto_at_S (i : nat) (w : float) :
  nth_error weights i = Some w ->
  upto_at weights (S i) = (upto_at weights i + w)%float.
Proof.
  intros Hw. unfold upto_at.
  assert (Hf : firstn (S i) weights = firstn i weights ++ [w]).
  { clear r. revert i Hw. induction weights as [|a l IH]; intros [|i] Hw;
      simpl in *; try discriminate.
    - congruence.
    - now rewrite <- (IH i Hw). }
  now rewrite Hf, fold_left_app.
Qed.

Lemma upto_at_length : upto_at weights (length weights) = total_weight weights.
Proof. unfold upto_at, total_weight. now rewrite firstn_all. Qed.

Lemma hit_S (i : nat) :
  i < length weights -> hit weights r i = geb (upto_at weights (S i)) r.
Proof.
  intros Hi. unfold hit.
  destruct (nth_error weights i) as [w|] eqn:Hw.
  - rewrite (upto_at_S i w Hw). now rewrite (nth_error_nth _ _ 0%float Hw).
  - apply nth_error_None in Hw. lia.
Qed.

(** The test of the last iteration compares the total with the draw. *)
Lemma hit_last (n : nat) :
  length weights = S n -> hit weights r n = geb (total_weight weights) r.
Proof.
  intros Hn. rewrite hit_S by lia. now rewrite <- Hn, upto_at_length.
Qed.

Lemma hit_total :
  weights <> [] ->
  hit weights r (length weights - 1) = geb (total_weight weights) r.
Proof.
  intros Hne. apply hit_last.
  assert (0 < length weights) by (destruct weights; [congruence | simpl; lia]).
  lia.
Qed.

(** What each outcome of the loop says about the tests it made. *)
Lemma scan_spec (rest : list string) (i : nat) :
  i <= length weights ->
  match scan weights r i (upto_at weights i) rest with
  | Done (Some c) =>
      exists k, nth_error rest k = Some c /\ i + k < length weights /\
                hit weights r (i + k) = true /\
                forall j, j < k -> hit weights r (i + j) = false
  | Done None =>
      i + length rest <= length weights /\
      forall j, j < length rest -> hit weights r (i + j) = false
  | Panicked _ =>
      length weights < i + length rest /\
      forall j, i + j < length weights -> hit weights r (i + j) = false
  end.
Proof.
  revert i. induction rest as [|c rest' IH]; intros i Hle; simpl.
  - split; [lia | intros j Hj; lia].
  - destruct (nth_error weights i) as [w|] eqn:Hw.
    + assert (Hi : i < length weights)
        by (apply nth_error_Some; congruence).
      assert (Hhit : hit weights r i = geb (upto_at weights i + w)%float r)
        by (unfold hit; now rewrite (nth_error_nth _ _ 0%float Hw)).
      destruct (geb (upto_at weights i + w)%float r) eqn:Hg.
      * exists 0%nat. rewrite Nat.add_0_r. repeat split; auto.
        intros j Hj; lia.
      * rewrite <- (upto_at_S i w Hw). specialize (IH (S i) Hi).
        destruct (scan weights r (S i) (upto_at weights (S i)) rest')
          as [[c'|]|f].
        -- destruct IH as (k & Hk & Hlt & Hk1 & Hk2).
           exists (S k). rewrite Nat.add_succ_r. repeat split; auto.
           intros [|j] Hj; [now rewrite Nat.add_0_r|].
           rewrite Nat.add_succ_r. apply Hk2. lia.
        -- destruct IH as (Hlen & Hall). split; [lia|].
           intros [|j] Hj; [now rewrite Nat.add_0_r|].
           rewrite Nat.add_succ_r. apply Hall. lia.
        -- destruct IH as (Hlen & Hall). split; [lia|].
           intros [|j] Hj; [now rewrite Nat.add_0_r|].
           rewrite Nat.add_succ_r. apply Hall. lia.
    + apply nth_error_None in Hw. split; [lia|]. intros j Hj; lia.
Qed.

End Walk.

(** ** Selection *)

Lemma last_cons (a d : string) (l : list string) : last (a :: l) d = last l a.
Proof.
  revert a d. induction l as [|b l IH]; intros a d; [reflexivity|].
  change (last (a :: b :: l) d) with (last (b :: l) d).
  now rewrite (IH b d), (IH b a).
Qed.

Lemma last_choice_nth (choices : list string) :
  choices <> [] ->
  last_choice choices = Done (nth (length choices - 1) choices ""%string).
Proof.
  destruct choices as [|c cs]; [congruence|]. intros _. unfold last_choice.
  f_equal. simpl length. rewrite Nat.sub_1_r, Nat.pred_succ.
  revert c. induction cs as [|d cs IH]; intros c; [reflexivity|].
  rewrite last_cons. apply IH.
Qed.

Lemma last_choice_In (choices : list string) (c : string) :
  last_choice choices = Done c -> In c choices.
Proof.
  intros H. assert (Hne : choices <> []) by (destruct choices; discriminate).
  rewrite (last_choice_nth choices Hne) in H. injection H as <-.
  apply nth_In. destruct choices; [congruence | simpl; lia].
Qed.

Section Select.

Variable r : float.
Variable choices : list string.
Variable weights : list float.

(** The walk from the start, outcome by outcome. *)
Lemma choose_spec :
  match choose r choices weights with
  | Done c =>
      (exists k, nth_error choices k = Some c /\ k < length weights /\
                 hit weights r k = true /\
                 forall j, j < k -> hit weights r j = false)
      \/ (length choices <= length weights /\
          (forall j, j < length choices -> hit weights r j = false) /\
          last_choice choices = Done c)
  | Panicked _ =>
      choices = []
      \/ (length weights < length choices /\
          forall j, j < length weights -> hit weights r j = false)
  end.
Proof.
  unfold choose.
  pose proof (scan_spec weights r choices 0 (Nat.le_0_l _)) as H.
  change (upto_at weights 0) with 0%float in H.
  destruct (scan weights r 0 0 choices) as [[c|]|f]; simpl in H.
  - left. exact H.
  - destruct H as (Hlen & Hall).
    destruct (last_choice choices) as [c|f] eqn:Hl.
    + right. auto.
    + left. destruct choices; [reflexivity | discriminate].
  - right. exact H.
Qed.

(** With as many weights as addresses, a non-empty set always yields
    one of its members. *)
Lemma choose_member :
  choices <> [] -> length weights = length choices ->
  exists c, In c choices /\ choose r choices weights = Done c.
Proof.
  intros Hne Hlen. pose proof choose_spec as H.
  destruct (choose r choices weights) as [c|f].
  - exists c. split; [|reflexivity].
    destruct H as [(k & Hk & _)|(_ & _ & Hl)].
    + eapply nth_error_In; eauto.
    + now apply last_choice_In.
  - destruct H as [H|(H & _)]; [congruence | lia].
Qed.

(** When no test succeeds, the last address is returned. *)
Lemma choose_fallback :
  choices <> [] -> length weights = length choices ->
  (forall k, k < length choices -> hit weights r k = false) ->
  choose r choices weights = last_choice choices.
Proof.
  intros Hne Hlen Hall. pose proof choose_spec as H.
  destruct (choose r choices weights) as [c|f].
  - destruct H as [(k & Hk & Hlt & Hh & _)|(_ & _ & Hl)]; [|now rewrite Hl].
    rewrite Hall in Hh by lia. discriminate.
  - destruct H as [H|(H & _)]; [congruence | lia].
Qed.

(** A draw that the total reaches is caught by a test: the returned
    address is the first whose test succeeds, at an index that both
    slices have. *)
Lemma choose_first_hit :
  choices <> [] -> weights <> [] ->
  length weights <= length choices ->
  geb (total_weight weights) r = true ->
  exists k, k < length weights /\
            choose r choices weights = Done (nth k choices ""%string) /\
            hit weights r k = true /\
            forall j, j < k -> hit weights r j = false.
Proof.
  intros Hne Hwne Hlen Htot.
  assert (Hlast : hit weights r (length weights - 1) = true)
    by (now rewrite hit_total).
  assert (Hpos : 0 < length weights)
    by (destruct weights; [congruence | simpl; lia]).
  pose proof choose_spec as H.
  destruct (choose r choices weights) as [c|f].
  - destruct H as [(k & Hk & Hlt & Hh & Hb)|(Hle & Hall & _)].
    + exists k. repeat split; auto.
      now rewrite (nth_error_nth _ _ ""%string Hk).
    + rewrite Hall in Hlast by lia. discriminate.
  - destruct H as [H|(_ & Hall)]; [congruence|].
    rewrite Hall in Hlast by lia. discriminate.
Qed.

(** Any draw that the total reaches, on any two non-empty slices:
    no panic, and the index stays within both. *)
Lemma choose_clamped :
  choices <> [] -> weights <> [] ->
  geb (total_weight weights) r = true ->
  exists k, k < Nat.min (length choices) (length weights) /\
            choose r choices weights = Done (nth k choices ""%string).
Proof.
  intros Hne Hwne Htot.
  assert (Hlast : hit weights r (length weights - 1) = true)
    by (now rewrite hit_total).
  assert (Hpos : 0 < length weights)
    by (destruct weights; [congruence | simpl; lia]).
  assert (Hcpos : 0 < length choices)
    by (destruct choices; [congruence | simpl; lia]).
  pose proof choose_spec as H.
  destruct (choose r choices weights) as [c|f].
  - destruct H as [(k & Hk & Hlt & _)|(Hle & _ & Hl)].
    + exists k. split.
      * assert (k < length choices) by (apply nth_error_Some; congruence).
        lia.
      * now rewrite (nth_error_nth _ _ ""%string Hk).
    + exists (length choices - 1). split; [lia|].
      rewrite <- Hl. now apply last_choice_nth.
  - destruct H as [H|(_ & Hall)]; [congruence|].
    rewrite Hall in Hlast by lia. discriminate.
Qed.

End Select.

(** ** The handler *)

Section Handle.

Variable env : Env.t.
Variable u : float.
Variable net : Network.
Variable req : Request.

Lemma forward_unreachable (c : string) :
  net (url_of c) = GetErr ->
  forward net c fresh
  = answered [url_of c] 500 ("Failed to reach pod" ++ Http.newline)%string.
Proof.
  intros H. unfold forward, bind, Http.Get. rewrite H. reflexivity.
Qed.

Lemma forward_unreadable (c : string) (resp : HttpResponse) :
  net (url_of c) = GetOk resp -> BodyFails resp = true ->
  forward net c fresh
  = answered [url_of c] 500 ("Failed to read response" ++ Http.newline)%string.
Proof.
  intros H Hb. unfold forward, bind, Http.Get, ReadAll. rewrite H, Hb.
  reflexivity.
Qed.

Lemma forward_relay (c : string) (resp : HttpResponse) :
  net (url_of c) = GetOk resp -> BodyFails resp = false ->
  forward net c fresh = answered [url_of c] 200 (BodyData resp).
Proof.
  intros H Hb. unfold forward, bind, Http.Get, ReadAll. rewrite H, Hb.
  reflexivity.
Qed.

(** Whatever the network answers, [forward] issues exactly one GET. *)
Lemma forward_one_call (c : string) :
  outbound (snd (forward net c fresh)) = [url_of c].
Proof.
  destruct (net (url_of c)) as [|resp] eqn:H.
  - now rewrite forward_unreachable.
  - destruct (BodyFails resp) eqn:Hb.
    + now rewrite (forward_unreadable c resp).
    + now rewrite (forward_relay c resp).
Qed.

Lemma serve_selected (c : string) :
  weightedChoice u (getPodIPs env) weights = Done c ->
  serve env u net req = forward net c fresh.
Proof.
  intros H. unfold serve, loadBalance, bind, call. now rewrite H.
Qed.

Lemma serve_panicked (f : Fault) :
  weightedChoice u (getPodIPs env) weights = Panicked f ->
  serve env u net req = (Panicked f, fresh).
Proof.
  intros H. unfold serve, loadBalance, bind, call. now rewrite H.
Qed.

Lemma serve_at_most_one_call :
  length (outbound (snd (serve env u net req))) <= 1.
Proof.
  destruct (weightedChoice u (getPodIPs env) weights) as [c|f] eqn:H.
  - rewrite (serve_selected c H), forward_one_call. simpl. lia.
  - rewrite (serve_panicked f H). simpl. lia.
Qed.

End Handle.

(** ** Discovery *)

Lemma Split_nonempty (s : string) (sep : ascii) : Strings.Split s sep <> [].
Proof.
  induction s as [|c s IH]; simpl; [discriminate|].
  destruct (Ascii.eqb c sep); [discriminate|].
  destruct (Strings.Split s sep); discriminate.
Qed.

Lemma getPodIPs_nonempty (env : Env.t) : getPodIPs env <> [].
Proof. apply Split_nonempty. Qed.

(** The handler's weights add up to exactly [1.0], so the draw is the
    generator's value itself. *)
Lemma draw_weights (u : float) : draw u weights = u.
Proof. unfold draw. change (total_weight weights) with 1%float. apply F64.mul_one. Qed.

(** On an empty slice of addresses the fallback indexes at [-1]. *)
Lemma weightedChoice_empty (u : float) (ws : list float) :
  weightedChoice u [] ws = Panicked IndexOutOfRange.
Proof. reflexivity. Qed.

(** ** Properties of the selector *)

(** C1, as stated, fails on both of its cases. A one-backend set whose
    only weight is zero (total [0 <= 0]) yields that backend, and the
    handler body run on it issues the outbound GET; the empty set makes
    [weightedChoice] panic instead of reporting anything. *)
Lemma no_backend_outcome_absent :
  geb 0 (total_weight [0%float]) = true /\
  weightedChoice 0.5 ["10.0.0.1"%string] [0%float] = Done "10.0.0.1"%string /\
  outbound (snd ((selectedPod <-
                    call (weightedChoice 0.5 ["10.0.0.1"%string] [0%float]) ;;
                  forward Sample.refusing selectedPod) fresh))
  = ["http://10.0.0.1"%string] /\
  weightedChoice 0.5 [] weights = Panicked IndexOutOfRange.
Proof. repeat split; reflexivity. Qed.

(** C1, amended: on a non-empty backend set with as many weights as
    addresses whose total is [<= 0], [weightedChoice] returns a backend
    of the set for every value of the generator, without a fault and
    without any "no backend available" outcome, and the handler body then
    issues its one outbound GET to that backend. *)
Theorem nonpositive_total_selects (u : float) (choices : list string)
    (ws : list float) (net : Network) :
  choices <> [] -> length ws = length choices ->
  geb 0 (total_weight ws) = true ->
  exists c, In c choices /\
            weightedChoice u choices ws = Done c /\
            outbound (snd ((selectedPod <- call (weightedChoice u choices ws) ;;
                            forward net selectedPod) fresh))
            = [url_of c].
Proof.
  intros Hne Hlen _.
  destruct (choose_member (draw u ws) choices ws Hne Hlen) as (c & Hin & Hc).
  exists c. unfold weightedChoice. repeat split; auto.
  unfold bind, call. cbv zeta. rewrite Hc. apply forward_one_call.
Qed.

Lemma nonpositive_total_selects_witness :
  exists c, In c ["10.0.0.1"; "10.0.0.2"]%string /\
            weightedChoice 0.5 ["10.0.0.1"; "10.0.0.2"]%string
              [0%float; 0%float] = Done c /\
            outbound (snd ((selectedPod <-
                              call (weightedChoice 0.5
                                      ["10.0.0.1"; "10.0.0.2"]%string
                                      [0%float; 0%float]) ;;
                            forward Sample.healthy selectedPod) fresh))
            = [url_of c].
Proof.
  apply (nonpositive_total_selects 0.5 ["10.0.0.1"; "10.0.0.2"]%string
           [0%float; 0%float] Sample.healthy).
  - discriminate.
  - reflexivity.
  - reflexivity.
Defined.

(** C2, as stated, fails at the draw [r = 0]: with weights [[0; 1]]
    (total [1 > 0]) and the generator returning [0], the draw is [0], in
    [[0, total)], the first test [0 + 0 >= 0] succeeds and the backend of
    weight zero is returned. *)
Lemma zero_weight_selected_at_zero_draw :
  (0 <? total_weight [0; 1])%float = true /\
  draw 0 [0%float; 1%float] = 0%float /\
  (0 <=? draw 0 [0; 1])%float = true /\
  (draw 0 [0; 1] <? total_weight [0; 1])%float = true /\
  is_zero (nth 0 [0%float; 1%float] 0%float) = true /\
  weightedChoice 0 ["a"; "b"]%string [0%float; 1%float]
  = Done (nth 0 ["a"; "b"]%string ""%string).
Proof. repeat split; reflexivity. Qed.

(** A backend of weight zero fails its test whenever the tests before it
    failed and the draw is positive. *)
Lemma zero_weight_misses (r : float) (ws : list float) (k : nat) :
  (0 <? r)%float = true -> k < length ws ->
  is_zero (nth k ws 0%float) = true ->
  (forall j, j < k -> hit ws r j = false) ->
  hit ws r k = false.
Proof.
  intros Hpos Hk Hz Hb. unfold hit. rewrite (F64.geb_add_zero _ _ _ Hz).
  destruct k as [|k0].
  - rewrite upto_at_0. now apply F64.ltb_not_geb.
  - rewrite <- hit_S by lia. apply Hb. lia.
Qed.

(** C2, amended: for every backend set with as many weights as addresses
    and every draw [r] with [0 < r < total], the backend returned -- the
    first in stored order whose test succeeds -- has a weight that is not
    zero; so, the addresses being distinct, the address of a backend of
    weight zero is never the one returned. *)
Theorem zero_weight_not_selected (u : float) (choices : list string)
    (ws : list float) :
  length ws = length choices ->
  (0 <? draw u ws)%float = true ->
  (draw u ws <? total_weight ws)%float = true ->
  (exists k, k < length choices /\
             weightedChoice u choices ws = Done (nth k choices ""%string) /\
             hit ws (draw u ws) k = true /\
             (forall j, j < k -> hit ws (draw u ws) j = false) /\
             is_zero (nth k ws 0%float) = false) /\
  (NoDup choices ->
   forall j, j < length choices -> is_zero (nth j ws 0%float) = true ->
             weightedChoice u choices ws <> Done (nth j choices ""%string)).
Proof.
  intros Hlen Hpos Hlt. unfold weightedChoice. cbv zeta.
  set (r := draw u ws) in *.
  assert (Hwne : ws <> []).
  { intros ->. change (total_weight []) with 0%float in Hlt.
    pose proof (F64.ltb_geb _ _ Hpos) as H1.
    pose proof (F64.ltb_not_geb _ _ Hlt) as H2. congruence. }
  assert (Hne : choices <> [])
    by (destruct ws, choices; simpl in *; congruence).
  destruct (choose_first_hit r choices ws Hne Hwne) as (k & Hk & Hc & Hh & Hb).
  { lia. }
  { now apply F64.ltb_geb. }
  assert (Hnz : is_zero (nth k ws 0%float) = false).
  { destruct (is_zero (nth k ws 0%float)) eqn:Hz; [|reflexivity].
    rewrite (zero_weight_misses r ws k Hpos Hk Hz Hb) in Hh. discriminate. }
  split.
  - exists k. repeat split; auto. lia.
  - intros Hnd j Hj Hz. rewrite Hc. intros Heq. injection Heq as Heq.
    assert (k = j).
    { apply (proj1 (NoDup_nth choices ""%string) Hnd); [lia | lia | exact Heq]. }
    subst j. congruence.
Qed.

Lemma zero_weight_not_selected_witness :
  (exists k, k < 3 /\
             weightedChoice 0.5 ["a"; "b"; "c"]%string
               [1%float; 0%float; 1%float]
             = Done (nth k ["a"; "b"; "c"]%string ""%string) /\
             hit [1%float; 0%float; 1%float]
               (draw 0.5 [1%float; 0%float; 1%float]) k = true /\
             (forall j, j < k ->
                hit [1%float; 0%float; 1%float]
                  (draw 0.5 [1%float; 0%float; 1%float]) j = false) /\
             is_zero (nth k [1%float; 0%float; 1%float] 0%float) = false) /\
  weightedChoice 0.5 ["a"; "b"; "c"]%string [1%float; 0%float; 1%float]
  <> Done (nth 1 ["a"; "b"; "c"]%string ""%string).
Proof.
  destruct (zero_weight_not_selected 0.5 ["a"; "b"; "c"]%string
              [1%float; 0%float; 1%float]) as [Hidx Haddr].
  - reflexivity.
  - reflexivity.
  - reflexivity.
  - split; [exact Hidx|]. apply Haddr.
    + repeat constructor; simpl; intuition discriminate.
    + simpl; lia.
    + reflexivity.
Defined.




(** C4: for every non-empty backend set with as many weights as addresses
    and every draw [r] in [[0, total)], [weightedChoice] returns the first
    backend in stored order whose test [upto + weight >= r] succeeds.
    With weights [[1; 1]], a draw of exactly [1.0] selects the first
    backend and any draw above [1.0] the second. *)
Theorem first_hit_is_selected :
  (forall (u : float) (choices : list string) (ws : list float),
      choices <> [] -> length ws = length choices ->
      (0 <=? draw u ws)%float = true ->
      (draw u ws <? total_weight ws)%float = true ->
      exists k, k < length choices /\
                weightedChoice u choices ws = Done (nth k choices ""%string) /\
                geb (upto_at ws k + nth k ws 0)%float (draw u ws) = true /\
                forall j, j < k ->
                  geb (upto_at ws j + nth j ws 0)%float (draw u ws) = false) /\
  (forall (u : float) (a b : string),
      draw u [1%float; 1%float] = 1%float ->
      weightedChoice u [a; b] [1%float; 1%float] = Done a) /\
  (forall (u : float) (a b : string),
      (1 <? draw u [1; 1])%float = true ->
      weightedChoice u [a; b] [1%float; 1%float] = Done b).
Proof.
  split; [|split].
  - intros u choices ws Hne Hlen _ Hlt. unfold weightedChoice. cbv zeta.
    assert (Hwne : ws <> []) by (destruct ws, choices; simpl in *; congruence).
    destruct (choose_first_hit (draw u ws) choices ws Hne Hwne)
      as (k & Hk & Hc & Hh & Hb).
    + lia.
    + now apply F64.ltb_geb.
    + exists k. repeat split; auto. lia.
  - intros u a b Hr. unfold weightedChoice. cbv zeta. rewrite Hr. reflexivity.
  - intros u a b Hr. unfold weightedChoice. cbv zeta.
    set (r := draw u [1%float; 1%float]) in *.
    unfold choose. cbn [scan nth_error].
    change (0 + 1)%float with 1%float.
    rewrite (F64.ltb_not_geb _ _ Hr).
    destruct (geb (1 + 1)%float r); reflexivity.
Qed.

Lemma first_hit_is_selected_witness :
  (exists k, k < 3 /\
             weightedChoice 0.6 ["a"; "b"; "c"]%string weights
             = Done (nth k ["a"; "b"; "c"]%string ""%string) /\
             geb (upto_at weights k + nth k weights 0)%float
               (draw 0.6 weights) = true /\
             forall j, j < k ->
               geb (upto_at weights j + nth j weights 0)%float
                 (draw 0.6 weights) = false) /\
  weightedChoice 0.5 ["a"; "b"]%string [1%float; 1%float] = Done "a"%string /\
  weightedChoice 0.75 ["a"; "b"]%string [1%float; 1%float] = Done "b"%string.
Proof.
  destruct first_hit_is_selected as (Hgen & Hone & Habove).
  split; [|split].
  - apply (Hgen 0.6%float ["a"; "b"; "c"]%string weights).
    + discriminate.
    + reflexivity.
    + reflexivity.
    + reflexivity.
  - apply (Hone 0.5%float). reflexivity.
  - apply (Habove 0.75%float). reflexivity.
Defined.

(** C5: for every non-empty backend set with as many weights as
    addresses, whatever the weights and the generator's value,
    [weightedChoice] returns a backend of the set; when the walk runs off
    the end without a successful test, it is the last-listed backend. *)
Theorem selection_is_total (u : float) (choices : list string)
    (ws : list float) :
  choices <> [] -> length ws = length choices ->
  (0 <? total_weight ws)%float = true ->
  (exists c, In c choices /\ weightedChoice u choices ws = Done c) /\
  ((forall k, k < length choices -> hit ws (draw u ws) k = false) ->
   weightedChoice u choices ws = Done (last choices ""%string)).
Proof.
  intros Hne Hlen _. unfold weightedChoice. cbv zeta. split.
  - now apply choose_member.
  - intros Hall. rewrite (choose_fallback _ _ _ Hne Hlen Hall).
    destruct choices as [|c cs]; [congruence|].
    unfold last_choice. now rewrite last_cons.
Qed.

Lemma selection_is_total_witness :
  (exists c, In c ["a"; "b"]%string /\
             weightedChoice 0 ["a"; "b"]%string [infinity; 1%float] = Done c) /\
  weightedChoice 0 ["a"; "b"]%string [infinity; 1%float]
  = Done (last ["a"; "b"]%string ""%string).
Proof.
  destruct (selection_is_total 0 ["a"; "b"]%string [infinity; 1%float])
    as [Hmember Hlast].
  - discriminate.
  - reflexivity.
  - reflexivity.
  - split; [exact Hmember|]. apply Hlast.
    intros [|[|k]] Hk; [reflexivity | reflexivity | simpl in Hk; lia].
Defined.

(** ** Properties of the handler *)

(** C7: when the outbound connection to the chosen backend fails, the
    handler answers the caller with status 500 and the text
    "Failed to reach pod", having issued that one GET and no other; and
    no inbound request ever causes more than one outbound request. *)
Theorem unreachable_backend_single_shot (env : Env.t) (u : float)
    (net : Network) (req : Request) :
  length (outbound (snd (serve env u net req))) <= 1 /\
  forall c, weightedChoice u (getPodIPs env) weights = Done c ->
            net (url_of c) = GetErr ->
            serve env u net req
            = answered [url_of c] 500
                ("Failed to reach pod" ++ Http.newline)%string.
Proof.
  split; [apply serve_at_most_one_call|].
  intros c Hc Hn. rewrite (serve_selected env u net req c Hc).
  now apply forward_unreachable.
Qed.

Lemma unreachable_backend_single_shot_witness :
  serve Sample.three 0.25 Sample.refusing Sample.req
  = answered ["http://10.0.0.1"%string] 500
      ("Failed to reach pod" ++ Http.newline)%string.
Proof.
  apply (proj2 (unreachable_backend_single_shot Sample.three 0.25
                  Sample.refusing Sample.req) "10.0.0.1"%string).
  - reflexivity.
  - reflexivity.
Defined.

(** C8: when the connection succeeds but reading the body fails, the
    handler answers with status 500 and the text
    "Failed to read response", which the caller can tell apart from the
    answer to any connection failure. *)
Theorem read_failure_is_distinct (env env' : Env.t) (u u' : float)
    (net net' : Network) (req req' : Request) (c c' : string)
    (resp : HttpResponse) :
  weightedChoice u (getPodIPs env) weights = Done c ->
  net (url_of c) = GetOk resp -> BodyFails resp = true ->
  weightedChoice u' (getPodIPs env') weights = Done c' ->
  net' (url_of c') = GetErr ->
  serve env u net req
  = answered [url_of c] 500 ("Failed to read response" ++ Http.newline)%string /\
  reply (snd (serve env u net req)) <> reply (snd (serve env' u' net' req')).
Proof.
  intros Hc Hn Hb Hc' Hn'.
  rewrite (serve_selected env u net req c Hc).
  rewrite (serve_selected env' u' net' req' c' Hc').
  rewrite (forward_unreadable net c resp Hn Hb).
  rewrite (forward_unreachable net' c' Hn').
  split; [reflexivity | discriminate].
Qed.

Lemma read_failure_is_distinct_witness :
  serve Sample.three 0.25 Sample.cut_off Sample.req
  = answered ["http://10.0.0.1"%string] 500
      ("Failed to read response" ++ Http.newline)%string /\
  reply (snd (serve Sample.three 0.25 Sample.cut_off Sample.req))
  <> reply (snd (serve Sample.three 0.25 Sample.refusing Sample.req)).
Proof.
  apply (read_failure_is_distinct Sample.three Sample.three 0.25 0.25
           Sample.cut_off Sample.refusing Sample.req Sample.req
           "10.0.0.1"%string "10.0.0.1"%string
           {| StatusCode := 200; BodyData := "O"; BodyFails := true |});
    reflexivity.
Defined.

(** C9: when the chosen backend is reachable and answers status 200 with
    body "OK", the handler answers the caller with status 200 and body
    "OK". *)
Theorem relays_ok (env : Env.t) (u : float) (net : Network) (req : Request)
    (c : string) (resp : HttpResponse) :
  weightedChoice u (getPodIPs env) weights = Done c ->
  net (url_of c) = GetOk resp ->
  StatusCode resp = 200%Z -> BodyData resp = "OK"%string ->
  BodyFails resp = false ->
  serve env u net req = answered [url_of c] 200 "OK"%string.
Proof.
  intros Hc Hn _ Hd Hb. rewrite (serve_selected env u net req c Hc).
  rewrite (forward_relay net c resp Hn Hb). now rewrite Hd.
Qed.

Lemma relays_ok_witness :
  serve Sample.three 0.7 Sample.healthy Sample.req
  = answered ["http://10.0.0.2"%string] 200 "OK"%string.
Proof.
  apply (relays_ok Sample.three 0.7 Sample.healthy Sample.req
           "10.0.0.2"%string
           {| StatusCode := 200; BodyData := "OK"; BodyFails := false |});
    reflexivity.
Defined.

(** C10: when [POD_IPS] is unset or empty, [getPodIPs] returns the
    one-element list holding the empty address; the selection then
    returns that address for every value of the generator, and the
    handler issues a GET to "http://" -- answering 500
    "Failed to reach pod" when that GET fails -- instead of stopping
    before any outbound call. *)
Theorem unset_pod_ips_still_calls (env : Env.t) (u : float) (net : Network)
    (req : Request) :
  env "POD_IPS"%string = None \/ env "POD_IPS"%string = Some ""%string ->
  getPodIPs env = [""%string] /\
  weightedChoice u (getPodIPs env) weights = Done ""%string /\
  outbound (snd (serve env u net req)) = ["http://"%string] /\
  (net "http://"%string = GetErr ->
   serve env u net req
   = answered ["http://"%string] 500
       ("Failed to reach pod" ++ Http.newline)%string).
Proof.
  intros Henv.
  assert (Hips : getPodIPs env = [""%string]).
  { unfold getPodIPs, Env.Getenv. cbv zeta.
    destruct Henv as [-> | ->]; reflexivity. }
  assert (Hsel : weightedChoice u (getPodIPs env) weights = Done ""%string).
  { rewrite Hips. unfold weightedChoice, choose. cbv zeta.
    cbn [scan weights nth_error].
    destruct (geb _ _); reflexivity. }
  repeat split; auto.
  - rewrite (serve_selected env u net req _ Hsel). apply forward_one_call.
  - intros Hn. rewrite (serve_selected env u net req _ Hsel).
    now apply forward_unreachable.
Qed.

Lemma unset_pod_ips_still_calls_witness :
  getPodIPs Sample.unset = [""%string] /\
  weightedChoice 0.9 (getPodIPs Sample.unset) weights = Done ""%string /\
  outbound (snd (serve Sample.unset 0.9 Sample.refusing Sample.req))
  = ["http://"%string] /\
  serve Sample.unset 0.9 Sample.refusing Sample.req
  = answered ["http://"%string] 500
      ("Failed to reach pod" ++ Http.newline)%string.
Proof.
  destruct (unset_pod_ips_still_calls Sample.unset 0.9 Sample.refusing
              Sample.req (or_introl eq_refl)) as (H1 & H2 & H3 & H4).
  split; [exact H1 | split; [exact H2 | split; [exact H3 |]]].
  apply H4. reflexivity.
Defined.


(** * Further properties *)

(** ** Order on binary64 *)

Lemma SFleb_trans (x y z : spec_float) :
  SFleb x y = true -> SFleb y z = true -> SFleb x z = true.
Proof.
  unfold SFleb.
  destruct x as [[]|[]| |[] mx ex], y as [[]|[]| |[] my ey],
           z as [[]|[]| |[] mz ez]; simpl; try congruence;
    repeat rewrite Pos.compare_cont_spec; simpl;
    destruct (Z.compare_spec ex ey), (Z.compare_spec ey ez),
             (Z.compare_spec ex ez);
    simpl; try congruence; try lia; subst;
    destruct (Pos.compare_spec mx my), (Pos.compare_spec my mz),
             (Pos.compare_spec mx mz);
    simpl; try congruence; try lia.
Qed.

(** [z >= y] and [y >= x] give [z >= x]. *)
Lemma geb_trans (x y z : float) :
  geb z y = true -> geb y x = true -> geb z x = true.
Proof.
  unfold geb. rewrite !FloatAxioms.leb_spec. intros Hzy Hyx.
  exact (SFleb_trans _ _ _ Hyx Hzy).
Qed.

(** A test that succeeds for a draw succeeds for every smaller draw. *)
Lemma hit_smaller_draw (ws : list float) (r r' : float) (k : nat) :
  geb r' r = true -> hit ws r' k = true -> hit ws r k = true.
Proof. unfold hit. intros Hr Hk. exact (geb_trans _ _ _ Hk Hr). Qed.

(** ** Searching an index range *)

Lemma find_seq_spec (p : nat -> bool) (n a : nat) :
  match find p (seq a n) with
  | Some k => a <= k < a + n /\ p k = true /\
              forall j, a <= j < k -> p j = false
  | None => forall j, a <= j < a + n -> p j = false
  end.
Proof.
  revert a. induction n as [|n IH]; intros a; simpl.
  - intros j Hj. lia.
  - destruct (p a) eqn:Hpa.
    + split; [lia|]. split; [exact Hpa|]. intros j Hj. lia.
    + specialize (IH (S a)). destruct (find p (seq (S a) n)) as [k|].
      * destruct IH as (Hk & Hpk & Hbefore).
        split; [lia|]. split; [exact Hpk|].
        intros j Hj. destruct (Nat.eq_dec j a) as [->|Hne]; [exact Hpa|].
        apply Hbefore. lia.
      * intros j Hj. destruct (Nat.eq_dec j a) as [->|Hne]; [exact Hpa|].
        apply IH. lia.
Qed.

Lemma pick_first_hit (ws : list float) (r : float) (n k : nat) :
  k < n -> hit ws r k = true -> (forall j, j < k -> hit ws r j = false) ->
  pick ws r n = k.
Proof.
  intros Hk Hh Hb. unfold pick.
  pose proof (find_seq_spec (hit ws r) n 0) as H.
  destruct (find (hit ws r) (seq 0 n)) as [k'|].
  - destruct H as (Hk' & Hh' & Hb').
    destruct (Nat.lt_trichotomy k k') as [Hlt|[Heq|Hgt]]; [|exact (eq_sym Heq)|].
    + rewrite Hb' in Hh by lia. discriminate.
    + rewrite Hb in Hh' by lia. discriminate.
  - rewrite H in Hh by lia. discriminate.
Qed.

Lemma pick_no_hit (ws : list float) (r : float) (n : nat) :
  (forall j, j < n -> hit ws r j = false) -> pick ws r n = n - 1.
Proof.
  intros Hall. unfold pick.
  pose proof (find_seq_spec (hit ws r) n 0) as H.
  destruct (find (hit ws r) (seq 0 n)) as [k|]; [|reflexivity].
  destruct H as (Hk & Hh & _). rewrite Hall in Hh by lia. discriminate.
Qed.

Lemma pick_monotone (ws : list float) (r r' : float) (n : nat) :
  geb r' r = true -> pick ws r n <= pick ws r' n.
Proof.
  intros Hr. unfold pick.
  pose proof (find_seq_spec (hit ws r) n 0) as H.
  pose proof (find_seq_spec (hit ws r') n 0) as H'.
  destruct (find (hit ws r) (seq 0 n)) as [k|],
           (find (hit ws r') (seq 0 n)) as [k'|].
  - destruct H as (Hk & Hh & Hb), H' as (Hk' & Hh' & Hb').
    destruct (Nat.le_gt_cases k k') as [Hle|Hgt]; [exact Hle|].
    pose proof (hit_smaller_draw ws r r' k' Hr Hh') as Hc.
    rewrite Hb in Hc by lia. discriminate.
  - destruct H as (Hk & _). lia.
  - destruct H' as (Hk' & Hh' & _).
    pose proof (hit_smaller_draw ws r r' k' Hr Hh') as Hc.
    rewrite H in Hc by lia. discriminate.
  - lia.
Qed.

(** With at least as many weights as addresses, the walk returns the
    address at index [pick]. *)
Lemma choose_pick (r : float) (choices : list string) (ws : list float) :
  choices <> [] -> length choices <= length ws ->
  choose r choices ws
  = Done (nth (pick ws r (length choices)) choices ""%string).
Proof.
  intros Hne Hlen. pose proof (choose_spec r choices ws) as H.
  destruct (choose r choices ws) as [c|f].
  - destruct H as [(k & Hk & Hlt & Hh & Hb)|(_ & Hall & Hl)].
    + assert (Hkn : k < length choices) by (apply nth_error_Some; congruence).
      rewrite (pick_first_hit ws r _ k Hkn Hh Hb).
      now rewrite (nth_error_nth _ _ ""%string Hk).
    + rewrite (pick_no_hit ws r _ Hall), <- Hl.
      now apply last_choice_nth.
  - destruct H as [H|(H & _)]; [congruence | lia].
Qed.

(** ** More on the selector *)

(** X1: whatever the two slices and the generator's value, an address
    that [weightedChoice] returns is one of the listed addresses. *)
Theorem selection_returns_listed_address (u : float)
    (choices : list string) (ws : list float) (c : string) :
  weightedChoice u choices ws = Done c -> In c choices.
Proof.
  unfold weightedChoice. cbv zeta. intros Hc.
  pose proof (choose_spec (draw u ws) choices ws) as H. rewrite Hc in H.
  destruct H as [(k & Hk & _)|(_ & _ & Hl)].
  - eapply nth_error_In; eauto.
  - now apply last_choice_In.
Qed.

Lemma selection_returns_listed_address_witness :
  In "10.0.0.2"%string ["10.0.0.1"; "10.0.0.2"; "10.0.0.3"; "10.0.0.4"]%string.
Proof.
  apply (selection_returns_listed_address 0.7
           ["10.0.0.1"; "10.0.0.2"; "10.0.0.3"; "10.0.0.4"]%string
           weights "10.0.0.2"%string).
  reflexivity.
Defined.

(** X2: [weightedChoice] panics in exactly two situations: there is no
    address at all, or there are more addresses than weights and none of
    the tests made with the available weights succeeds. *)
Theorem selection_panics_iff (u : float) (choices : list string)
    (ws : list float) :
  weightedChoice u choices ws = Panicked IndexOutOfRange <->
  choices = [] \/
  (length ws < length choices /\
   forall j, j < length ws -> hit ws (draw u ws) j = false).
Proof.
  unfold weightedChoice. cbv zeta.
  pose proof (choose_spec (draw u ws) choices ws) as H. split.
  - intros Hp. rewrite Hp in H. exact H.
  - intros Hcase. destruct (choose (draw u ws) choices ws) as [c|[]].
    + exfalso. destruct Hcase as [->|(Hlen & Hall)].
      * destruct H as [(k & Hk & _)|(_ & _ & Hl)]; [|discriminate].
        destruct k; discriminate.
      * destruct H as [(k & _ & Hk & Hh & _)|(Hle & _)]; [|lia].
        rewrite Hall in Hh by exact Hk. discriminate.
    + reflexivity.
Qed.

Lemma selection_panics_iff_witness :
  weightedChoice 0.9 ["a"; "b"]%string [(-1)%float] = Panicked IndexOutOfRange.
Proof.
  apply (proj2 (selection_panics_iff 0.9 ["a"; "b"]%string [(-1)%float])).
  right. split; [simpl; lia|].
  intros [|j] Hj; [reflexivity | simpl in Hj; lia].
Defined.

(** X3: spare weights are harmless. With at least one address and at
    least as many weights as addresses, [weightedChoice] never panics,
    for any float weights and any generator value, and returns the
    address at the index of the first successful test, or the last
    address when no test succeeds. *)
Theorem spare_weights_never_panic (u : float) (choices : list string)
    (ws : list float) :
  choices <> [] -> length choices <= length ws ->
  pick ws (draw u ws) (length choices) < length choices /\
  weightedChoice u choices ws
  = Done (nth (pick ws (draw u ws) (length choices)) choices ""%string).
Proof.
  intros Hne Hlen. split; [|now apply choose_pick].
  assert (0 < length choices) by (destruct choices; [congruence | simpl; lia]).
  unfold pick.
  pose proof (find_seq_spec (hit ws (draw u ws)) (length choices) 0) as Hf.
  destruct (find _ _) as [k|]; [destruct Hf as (Hk & _)|]; lia.
Qed.

Lemma spare_weights_never_panic_witness :
  pick weights (draw 0.9 weights) 2 < 2 /\
  weightedChoice 0.9 ["a"; "b"]%string weights
  = Done (nth (pick weights (draw 0.9 weights) 2) ["a"; "b"]%string ""%string).
Proof.
  apply (spare_weights_never_panic 0.9 ["a"; "b"]%string weights).
  - discriminate.
  - simpl. lia.
Defined.

(** X4: the walk preserves order. With at least as many weights as
    addresses, a draw that is no larger than another selects a backend
    that comes no later in stored order, for any float weights. *)
Theorem smaller_draw_earlier_backend (u u' : float)
    (choices : list string) (ws : list float) :
  choices <> [] -> length choices <= length ws ->
  geb (draw u' ws) (draw u ws) = true ->
  exists k k', k <= k' /\ k' < length choices /\
    k = pick ws (draw u ws) (length choices) /\
    k' = pick ws (draw u' ws) (length choices) /\
    weightedChoice u choices ws = Done (nth k choices ""%string) /\
    weightedChoice u' choices ws = Done (nth k' choices ""%string).
Proof.
  intros Hne Hlen Hr.
  exists (pick ws (draw u ws) (length choices)),
         (pick ws (draw u' ws) (length choices)).
  split; [now apply pick_monotone|].
  split.
  { assert (0 < length choices)
      by (destruct choices; [congruence | simpl; lia]).
    unfold pick.
    pose proof (find_seq_spec (hit ws (draw u' ws)) (length choices) 0) as Hf.
    destruct (find _ _) as [k|]; [destruct Hf as (Hk & _)|]; lia. }
  repeat split; unfold weightedChoice; cbv zeta; now apply choose_pick.
Qed.

Lemma smaller_draw_earlier_backend_witness :
  exists k k', k <= k' /\ k' < 3 /\
    k = pick [2%float; 5%float; 3%float] (draw 0.15 [2; 5; 3]%float) 3 /\
    k' = pick [2%float; 5%float; 3%float] (draw 0.75 [2; 5; 3]%float) 3 /\
    weightedChoice 0.15 ["a"; "b"; "c"]%string [2; 5; 3]%float
    = Done (nth k ["a"; "b"; "c"]%string ""%string) /\
    weightedChoice 0.75 ["a"; "b"; "c"]%string [2; 5; 3]%float
    = Done (nth k' ["a"; "b"; "c"]%string ""%string).
Proof.
  apply (smaller_draw_earlier_backend 0.15 0.75 ["a"; "b"; "c"]%string
           [2; 5; 3]%float).
  - discriminate.
  - simpl. lia.
  - reflexivity.
Defined.

(** ** More on the handler *)

(** X5: how [loadBalance] shares the traffic. For every value of
    [POD_IPS] and every generator value [u < 1], the address chosen is
    the one at index [bucket u] -- the first for [u <= 0.5], the second
    for [0.5 < u <= 0.8], the third above -- or the last address when
    there are fewer addresses than that. A fourth or later address is
    never chosen; with two addresses the second gets the shares of the
    second and third weights. *)
Theorem handler_selection_by_share (env : Env.t) (u : float) :
  (u <? 1)%float = true ->
  weightedChoice u (getPodIPs env) weights
  = Done (nth (Nat.min (bucket u) (length (getPodIPs env) - 1))
            (getPodIPs env) ""%string).
Proof.
  intros Hu. apply F64.ltb_geb in Hu.
  pose proof (getPodIPs_nonempty env) as Hne.
  unfold weightedChoice. cbv zeta. rewrite draw_weights.
  unfold choose, bucket.
  destruct (getPodIPs env) as [|a [|b [|c rest]]]; [congruence| | |];
    cbn [scan nth_error weights length last_choice last];
    change (0 + 0.5)%float with 0.5%float;
    change (0.5 + 0.3 + 0.2)%float with 1%float;
    destruct (geb 0.5 u); try reflexivity;
    destruct (geb (0.5 + 0.3) u); try reflexivity.
  rewrite Hu. reflexivity.
Qed.

Lemma handler_selection_by_share_witness :
  weightedChoice 0.95 (getPodIPs Sample.four) weights
  = Done (nth (Nat.min (bucket 0.95) (length (getPodIPs Sample.four) - 1))
            (getPodIPs Sample.four) ""%string).
Proof.
  apply (handler_selection_by_share Sample.four 0.95). reflexivity.
Defined.

(** X6: every inbound request is answered exactly once. For every value
    of [POD_IPS], every generator value [u < 1], every network and every
    request, [loadBalance] does not panic, issues exactly one GET, to
    "http://" followed by one of the addresses of [POD_IPS], and answers
    in one of three ways: 500 "Failed to reach pod", 500
    "Failed to read response", or 200 with the body it read. *)
Theorem handler_answers_once (env : Env.t) (u : float) (net : Network)
    (req : Request) :
  (u <? 1)%float = true ->
  exists c, In c (getPodIPs env) /\
    ((net (url_of c) = GetErr /\
      serve env u net req
      = answered [url_of c] 500
          ("Failed to reach pod" ++ Http.newline)%string)
     \/ (exists resp, net (url_of c) = GetOk resp /\ BodyFails resp = true /\
          serve env u net req
          = answered [url_of c] 500
              ("Failed to read response" ++ Http.newline)%string)
     \/ (exists resp, net (url_of c) = GetOk resp /\ BodyFails resp = false /\
          serve env u net req = answered [url_of c] 200 (BodyData resp))).
Proof.
  intros Hu.
  destruct (choose_clamped (draw u weights) (getPodIPs env) weights)
    as (k & Hk & Hc).
  - apply getPodIPs_nonempty.
  - discriminate.
  - rewrite draw_weights. change (total_weight weights) with 1%float.
    now apply F64.ltb_geb.
  - set (c := nth k (getPodIPs env) ""%string) in *.
    exists c. split; [apply nth_In; lia|].
    rewrite (serve_selected env u net req c Hc).
    destruct (net (url_of c)) as [|resp] eqn:Hn.
    + left. split; [reflexivity|]. now apply forward_unreachable.
    + destruct (BodyFails resp) eqn:Hb.
      * right. left. exists resp. repeat split; auto.
        now apply (forward_unreadable net c resp).
      * right. right. exists resp. repeat split; auto.
        now apply (forward_relay net c resp).
Qed.

Lemma handler_answers_once_witness :
  exists c, In c (getPodIPs Sample.three) /\
    ((Sample.cut_off (url_of c) = GetErr /\
      serve Sample.three 0.6 Sample.cut_off Sample.req
      = answered [url_of c] 500
          ("Failed to reach pod" ++ Http.newline)%string)
     \/ (exists resp, Sample.cut_off (url_of c) = GetOk resp /\
          BodyFails resp = true /\
          serve Sample.three 0.6 Sample.cut_off Sample.req
          = answered [url_of c] 500
              ("Failed to read response" ++ Http.newline)%string)
     \/ (exists resp, Sample.cut_off (url_of c) = GetOk resp /\
          BodyFails resp = false /\
          serve Sample.three 0.6 Sample.cut_off Sample.req
          = answered [url_of c] 200 (BodyData resp))).
Proof.
  apply (handler_answers_once Sample.three 0.6 Sample.cut_off Sample.req).
  reflexivity.
Defined.

(** X7: the backend's status code is not relayed. Whenever the body of
    the backend's response is read in full, the caller gets status 200
    and exactly that body, whatever status the backend answered with;
    the answer is the same for two backends that differ in status
    only. *)
Theorem backend_status_not_relayed (env : Env.t) (u : float)
    (net net' : Network) (req : Request) (c : string)
    (resp resp' : HttpResponse) :
  weightedChoice u (getPodIPs env) weights = Done c ->
  net (url_of c) = GetOk resp -> BodyFails resp = false ->
  net' (url_of c) = GetOk resp' -> BodyFails resp' = false ->
  BodyData resp' = BodyData resp ->
  serve env u net req = answered [url_of c] 200 (BodyData resp) /\
  serve env u net' req = serve env u net req.
Proof.
  intros Hc Hn Hb Hn' Hb' Hd.
  rewrite !(serve_selected env u _ req c Hc).
  rewrite (forward_relay net c resp Hn Hb).
  rewrite (forward_relay net' c resp' Hn' Hb'). now rewrite Hd.
Qed.

Lemma backend_status_not_relayed_witness :
  serve Sample.three 0.25
    (fun _ => GetOk {| StatusCode := 503; BodyData := "busy";
                       BodyFails := false |}) Sample.req
  = answered ["http://10.0.0.1"%string] 200 "busy"%string /\
  serve Sample.three 0.25
    (fun _ => GetOk {| StatusCode := 200; BodyData := "busy";
                       BodyFails := false |}) Sample.req
  = serve Sample.three 0.25
      (fun _ => GetOk {| StatusCode := 503; BodyData := "busy";
                         BodyFails := false |}) Sample.req.
Proof.
  apply (backend_status_not_relayed Sample.three 0.25 _ _ Sample.req
           "10.0.0.1"%string
           {| StatusCode := 503; BodyData := "busy"; BodyFails := false |}
           {| StatusCode := 200; BodyData := "busy"; BodyFails := false |});
    reflexivity.
Defined.

(** ** More on discovery *)

Lemma Split_Join (s : string) (sep : ascii) :
  Join (Strings.Split s sep) sep = s.
Proof.
  induction s as [|c s IH]; [reflexivity|].
  pose proof (Split_nonempty s sep) as Hne. simpl.
  destruct (Ascii.eqb c sep) eqn:Hc.
  - apply Ascii.eqb_eq in Hc. subst c.
    destruct (Strings.Split s sep) as [|f fs]; [congruence|].
    change (Join (EmptyString :: f :: fs) sep)
      with (String sep (Join (f :: fs) sep)).
    now rewrite IH.
  - destruct (Strings.Split s sep) as [|f [|g fs]]; [congruence| |].
    + simpl in *. now rewrite IH.
    + change (Join (String c f :: g :: fs) sep)
        with (String c (f ++ String sep (Join (g :: fs) sep)))%string.
      change (Join (f :: g :: fs) sep)
        with (f ++ String sep (Join (g :: fs) sep))%string in IH.
      now rewrite IH.
Qed.

Lemma Split_length (s : string) (sep : ascii) :
  length (Strings.Split s sep) = S (Count s sep).
Proof.
  induction s as [|c s IH]; [reflexivity|].
  pose proof (Split_nonempty s sep) as Hne. simpl.
  destruct (Ascii.eqb c sep).
  - simpl. now rewrite IH.
  - destruct (Strings.Split s sep) as [|f fs]; [congruence|].
    simpl in *. exact IH.
Qed.

Lemma Split_fields_free (s : string) (sep : ascii) (field : string) :
  In field (Strings.Split s sep) -> Count field sep = 0.
Proof.
  revert field. induction s as [|c s IH]; intros field; simpl.
  - intros [<-|[]]. reflexivity.
  - destruct (Ascii.eqb c sep) eqn:Hc.
    + intros [<-|Hin]; [reflexivity | now apply IH].
    + destruct (Strings.Split s sep) as [|f fs].
      * intros [<-|[]]. simpl. now rewrite Hc.
      * intros [<-|Hin].
        -- simpl. rewrite Hc. apply IH. now left.
        -- apply IH. now right.
Qed.

(** A separator in the middle splits the field lists. *)
Lemma Split_app (a b : string) (sep : ascii) :
  Strings.Split (a ++ String sep b) sep
  = Strings.Split a sep ++ Strings.Split b sep.
Proof.
  induction a as [|c a IH]; simpl.
  - now rewrite Ascii.eqb_refl.
  - destruct (Ascii.eqb c sep).
    + now rewrite IH.
    + rewrite IH. pose proof (Split_nonempty a sep) as Hne.
      destruct (Strings.Split a sep) as [|f fs]; [congruence | reflexivity].
Qed.

Lemma Split_free (s : string) (sep : ascii) :
  Count s sep = 0 -> Strings.Split s sep = [s].
Proof.
  induction s as [|c s IH]; [reflexivity|]. simpl.
  destruct (Ascii.eqb c sep); [discriminate|]. simpl.
  intros H. now rewrite (IH H).
Qed.

Lemma Split_of_Join (fields : list string) (sep : ascii) :
  fields <> [] -> (forall f, In f fields -> Count f sep = 0) ->
  Strings.Split (Join fields sep) sep = fields.
Proof.
  induction fields as [|f fs IH]; [congruence|]. intros _ Hfree.
  destruct fs as [|g fs].
  - simpl. apply Split_free. apply Hfree. now left.
  - change (Join (f :: g :: fs) sep)
      with (f ++ String sep (Join (g :: fs) sep))%string.
    rewrite Split_app, Split_free by (apply Hfree; now left).
    rewrite IH; [reflexivity | discriminate |].
    intros h Hh. apply Hfree. now right.
Qed.

(** X8: [getPodIPs] loses nothing of the configuration: its addresses,
    joined by commas, are the value of [POD_IPS] (the empty string when
    the variable is not set). *)
Theorem getPodIPs_join_roundtrip (env : Env.t) :
  Join (getPodIPs env) comma = Env.Getenv env "POD_IPS"%string.
Proof. unfold getPodIPs. cbv zeta. apply Split_Join. Qed.

(** X9: [getPodIPs] returns one address more than there are commas in
    [POD_IPS], and no address contains a comma. Leading, trailing and
    doubled commas therefore yield empty addresses, and nothing is
    trimmed or dropped. *)
Theorem getPodIPs_counts_commas (env : Env.t) :
  length (getPodIPs env) = S (Count (Env.Getenv env "POD_IPS"%string) comma) /\
  forall address, In address (getPodIPs env) -> Count address comma = 0.
Proof.
  unfold getPodIPs. cbv zeta. split.
  - apply Split_length.
  - intros address. apply Split_fields_free.
Qed.

(** X10: a non-empty list of comma-free addresses written to [POD_IPS]
    with commas in between is read back by [getPodIPs] unchanged, in the
    same order. *)
Theorem configured_addresses_read_back (env : Env.t)
    (addresses : list string) :
  addresses <> [] ->
  (forall a, In a addresses -> Count a comma = 0) ->
  env "POD_IPS"%string = Some (Join addresses comma) ->
  getPodIPs env = addresses.
Proof.
  intros Hne Hfree Henv. unfold getPodIPs, Env.Getenv. cbv zeta.
  rewrite Henv. now apply Split_of_Join.
Qed.

Lemma configured_addresses_read_back_witness :
  getPodIPs Sample.three = ["10.0.0.1"; "10.0.0.2"; "10.0.0.3"]%string.
Proof.
  apply (configured_addresses_read_back Sample.three
           ["10.0.0.1"; "10.0.0.2"; "10.0.0.3"]%string).
  - discriminate.
  - intros a [<-|[<-|[<-|[]]]]; reflexivity.
  - reflexivity.
Defined.

(** X11: appending ",more" to the value of [POD_IPS] appends the
    addresses of [more] to the list and leaves the earlier addresses at
    their positions, hence with their weights. *)
Theorem appended_addresses_keep_positions (env env' env'' : Env.t)
    (v more : string) :
  env "POD_IPS"%string = Some v ->
  env' "POD_IPS"%string = Some more ->
  env'' "POD_IPS"%string = Some (v ++ String comma more)%string ->
  getPodIPs env'' = getPodIPs env ++ getPodIPs env'.
Proof.
  intros H H' H''. unfold getPodIPs, Env.Getenv. cbv zeta.
  rewrite H, H', H''. apply Split_app.
Qed.

Lemma appended_addresses_keep_positions_witness :
  getPodIPs Sample.four
  = getPodIPs Sample.three ++ getPodIPs (Sample.env_of (Some "10.0.0.4"%string)).
Proof.
  apply (appended_addresses_keep_positions Sample.three
           (Sample.env_of (Some "10.0.0.4"%string)) Sample.four
           "10.0.0.1,10.0.0.2,10.0.0.3"%string "10.0.0.4"%string);
    reflexivity.
Defined.

(** ** The backend application *)

Lemma append_cancel_r (a b t : string) :
  String.length t = 1 -> (a ++ t)%string = (b ++ t)%string -> a = b.
Proof.
  intros Ht. destruct t as [|x [|y t]]; try discriminate. clear Ht.
  revert b. induction a as [|c a IH]; intros [|d b]; simpl; intros H.
  - reflexivity.
  - injection H as _ H. destruct b; discriminate.
  - injection H as _ H. destruct a; discriminate.
  - injection H as -> H. f_equal. now apply IH.
Qed.

Lemma webapp_success (name : string) (req : Request) :
  WebApp.handler (Some name) req fresh
  = answered [] 200 ("Hello from " ++ name ++ "!")%string.
Proof. reflexivity. Qed.

Lemma webapp_failure (req : Request) :
  WebApp.handler None req fresh
  = answered [] 500 ("Could not get hostname" ++ Http.newline)%string.
Proof. reflexivity. Qed.

(** X12: the answer of the web application identifies the pod. The
    handler completes without any outbound request, and two runs that
    send the same status and body had the same result of [os.Hostname]:
    a failure is never mistaken for a success, and different host names
    give different bodies. *)
Theorem webapp_reply_identifies_pod (hostname hostname' : option string)
    (req req' : Request) :
  reply (snd (WebApp.handler hostname req fresh))
  = reply (snd (WebApp.handler hostname' req' fresh)) ->
  hostname = hostname' /\
  WebApp.handler hostname req fresh = WebApp.handler hostname' req' fresh /\
  fst (WebApp.handler hostname req fresh) = Done tt /\
  outbound (snd (WebApp.handler hostname req fresh)) = [].
Proof.
  intros H.
  assert (Heq : hostname = hostname').
  { destruct hostname as [name|], hostname' as [name'|];
      try rewrite !webapp_success in H; try rewrite !webapp_failure in H;
      try discriminate; [|reflexivity].
    unfold reply, answered in H. simpl in H. injection H as H.
    f_equal. apply (append_cancel_r name name' "!"%string); auto. }
  subst hostname'. split; [reflexivity|].
  destruct hostname as [name|].
  - rewrite !webapp_success. auto.
  - rewrite !webapp_failure. auto.
Qed.

Lemma webapp_reply_identifies_pod_witness :
  Some "web-app-7d9f"%string = Some "web-app-7d9f"%string /\
  WebApp.handler (Some "web-app-7d9f"%string) get_root fresh
  = WebApp.handler (Some "web-app-7d9f"%string) Sample.req fresh /\
  fst (WebApp.handler (Some "web-app-7d9f"%string) get_root fresh) = Done tt /\
  outbound (snd (WebApp.handler (Some "web-app-7d9f"%string) get_root fresh))
  = [].
Proof.
  apply (webapp_reply_identifies_pod (Some "web-app-7d9f"%string)
           (Some "web-app-7d9f"%string) get_root Sample.req).
  reflexivity.
Defined.

(** X13: the two programs together. When the address chosen by
    [loadBalance] is served by a web-app pod, the caller of the load
    balancer receives status 200 and the pod's greeting
    "Hello from <hostname>!", whatever the inbound request was; when
    [os.Hostname] fails in that pod, the pod's 500 answer reaches the
    caller as status 200 with the body "Could not get hostname"; when no
    pod listens at the address, the caller receives 500
    "Failed to reach pod". *)
Theorem balancer_in_front_of_webapp (env : Env.t) (u : float)
    (pods : string -> option (option string)) (req : Request) (c : string) :
  weightedChoice u (getPodIPs env) weights = Done c ->
  (forall name, pods (url_of c) = Some (Some name) ->
     serve env u (cluster pods) req
     = answered [url_of c] 200 ("Hello from " ++ name ++ "!")%string) /\
  (pods (url_of c) = Some None ->
     serve env u (cluster pods) req
     = answered [url_of c] 200
         ("Could not get hostname" ++ Http.newline)%string) /\
  (pods (url_of c) = None ->
     serve env u (cluster pods) req
     = answered [url_of c] 500 ("Failed to reach pod" ++ Http.newline)%string).
Proof.
  intros Hc. rewrite (serve_selected env u (cluster pods) req c Hc).
  split; [|split].
  - intros name Hp.
    rewrite (forward_relay (cluster pods) c
               (as_response (snd (WebApp.handler (Some name) get_root fresh)))).
    + reflexivity.
    + unfold cluster. now rewrite Hp.
    + reflexivity.
  - intros Hp.
    rewrite (forward_relay (cluster pods) c
               (as_response (snd (WebApp.handler None get_root fresh)))).
    + reflexivity.
    + unfold cluster. now rewrite Hp.
    + reflexivity.
  - intros Hp. apply forward_unreachable. unfold cluster. now rewrite Hp.
Qed.

Lemma balancer_in_front_of_webapp_witness :
  serve Sample.three 0.7
    (cluster (fun url => if String.eqb url "http://10.0.0.2"
                         then Some (Some "web-app-7d9f"%string)
                         else if String.eqb url "http://10.0.0.3"
                              then Some None else None))
    Sample.req
  = answered ["http://10.0.0.2"%string] 200 "Hello from web-app-7d9f!"%string /\
  serve Sample.three 0.9
    (cluster (fun url => if String.eqb url "http://10.0.0.2"
                         then Some (Some "web-app-7d9f"%string)
                         else if String.eqb url "http://10.0.0.3"
                              then Some None else None))
    Sample.req
  = answered ["http://10.0.0.3"%string] 200
      ("Could not get hostname" ++ Http.newline)%string /\
  serve Sample.three 0.1
    (cluster (fun url => if String.eqb url "http://10.0.0.2"
                         then Some (Some "web-app-7d9f"%string)
                         else if String.eqb url "http://10.0.0.3"
                              then Some None else None))
    Sample.req
  = answered ["http://10.0.0.1"%string] 500
      ("Failed to reach pod" ++ Http.newline)%string.
Proof.
  split; [|split].
  - apply (proj1 (balancer_in_front_of_webapp Sample.three 0.7 _ Sample.req
                    "10.0.0.2"%string eq_refl) "web-app-7d9f"%string).
    reflexivity.
  - apply (proj1 (proj2 (balancer_in_front_of_webapp Sample.three 0.9 _
                           Sample.req "10.0.0.3"%string eq_refl))).
    reflexivity.
  - apply (proj2 (proj2 (balancer_in_front_of_webapp Sample.three 0.1 _
                           Sample.req "10.0.0.1"%string eq_refl))).
    reflexivity.
Defined.

(** ** The draw of the handler *)

(** X14: in [loadBalance] the draw is the generator's value itself. The
    three weights add up to exactly [1.0] in binary64 and multiplying by
    [1.0] is exact, so [r = u] for every float [u]; a generator value in
    [[0, 1)] gives a draw in [[0, total)]. *)
Theorem handler_draw_is_generator_value (u : float) :
  draw u weights = u /\
  ((0 <=? u)%float = true -> (u <? 1)%float = true ->
   (0 <=? draw u weights)%float = true /\
   (draw u weights <? total_weight weights)%float = true).
Proof.
  split; [apply draw_weights|]. intros H0 H1.
  rewrite draw_weights. change (total_weight weights) with 1%float. auto.
Qed.

Lemma handler_draw_is_generator_value_witness :
  (0 <=? draw 0.3 weights)%float = true /\
  (draw 0.3 weights <? total_weight weights)%float = true.
Proof.
  apply (proj2 (handler_draw_is_generator_value 0.3)); reflexivity.
Defined.
